(** * app.py: the Hugging Face Spaces launcher, as a shallow embedding

    The script checks for node and npm, runs [npm install] and
    [npm run build], then starts [npm start] with a daemon thread that
    relays the server's output.  Everything the script asks of the outside
    world (what a command does when it is run, what the server prints, when
    the relay thread is scheduled, when Ctrl-C arrives) is read from a
    [world]; the script itself is a computation in a state-and-exception
    monad whose state records the dict objects, the child processes and the
    standard output. *)

From Stdlib Require Import ZArith NArith List String Ascii Lia.
From stdpp Require Import base option list gmap.

Local Open Scope Z_scope.

(** ** Python values *)

(** A Python [str] is a sequence of Unicode code points. *)
Abbreviation str := (list N).

(** An ASCII literal of the source. *)
Definition lit (s : string) : str :=
  map N_of_ascii (list_ascii_of_string s).

(** [str.isspace] on one code point (CPython's [_PyUnicode_IsWhitespace]). *)
Definition isspace (c : N) : bool :=
  (((9 <=? c) && (c <=? 13)) || ((28 <=? c) && (c <=? 32))
   || (c =? 133) || (c =? 160) || (c =? 5760)
   || ((8192 <=? c) && (c <=? 8202))
   || (c =? 8232) || (c =? 8233) || (c =? 8239) || (c =? 8287)
   || (c =? 12288))%N.

Fixpoint lstrip (s : str) : str :=
  match s with
  | [] => []
  | c :: s' => if isspace c then lstrip s' else s
  end.

Fixpoint rstrip (s : str) : str :=
  match s with
  | [] => []
  | c :: s' =>
      match rstrip s' with
      | [] => if isspace c then [] else [c]
      | r => c :: r
      end
  end.

(** [s.strip()] *)
Definition strip (s : str) : str := rstrip (lstrip s).

(** A Python [dict] from [str] to [str]. *)
Abbreviation dict := (gmap (list N) (list N)).

(** Dict objects live in a store and are handled through references, so
    that [copy] and item assignment can be told apart from rebinding. *)
Abbreviation ref := nat (only parsing).

(** The exceptions the script can meet. *)
Inductive exn :=
| CalledProcessError (returncode : Z) (cmd : list str)
| FileNotFoundError (cmd : list str)
| PermissionError (cmd : list str)
| UnboundLocalError
| KeyboardInterrupt
| SystemExit (code : Z).

(** [except Exception] catches everything but the two [BaseException]s. *)
Definition is_Exception (e : exn) : bool :=
  match e with
  | KeyboardInterrupt | SystemExit _ => false
  | _ => true
  end.

(** A child process handle ([subprocess.Popen]'s [pid] and [args]). *)
Record Popen := { pid : nat; args : list str }.

(** What [print] was given: a plain string, or an f-string that ends in
    [{e}] for an exception [e] (whose rendering is the library's). *)
Inductive printed :=
| Text (s : str)
| TextExc (s : str) (e : exn).

(** What the script does to the outside world, in order. *)
Inductive event :=
| Output (m : printed)                     (* a line on standard output *)
| Spawn (p : Popen) (env : option dict)    (* child started; [None]: inherited env *)
| Reaped (p : Popen) (returncode : Z)      (* a wait on the child returned *)
| Terminate (p : Popen)                    (* [p.terminate()] *)
| Kill (p : Popen).                        (* [p.kill()], inside [subprocess.run] *)

(** ** The outside world *)

(** What happens to a command given to [subprocess.run].  Ctrl-C during
    the call: [subprocess.run] waits a moment for the child, which has got
    the signal too, kills it if it is still there, and lets
    [KeyboardInterrupt] through. *)
Inductive child :=
| NotFound                  (* no such executable: [FileNotFoundError] *)
| NotExecutable             (* it is there but cannot be executed:
                               [PermissionError] *)
| Exits (returncode : Z)    (* it runs and exits with this status *)
| Never                     (* it runs and never exits *)
| Interrupted (reaped : option Z).
                            (* Ctrl-C while it runs; [Some rc]: it exits
                               with [rc] within the grace period; [None]:
                               it does not, and is killed *)

(** What happens to the command given to [subprocess.Popen]. *)
Record server := {
  srv_found : bool;          (* can the executable be started *)
  srv_lines : list str;      (* the lines [for line in process.stdout] yields *)
  srv_own : option Z;        (* exit status when left alone; [None]: runs on *)
  srv_term : option Z;       (* status a wait sees after [terminate()];
                                [None]: the request is ignored for ever *)
}.

Record world := {
  w_environ : dict;              (* [os.environ] when the script starts *)
  w_run : list str → child;
  w_server : server;
  w_sched : list nat;            (* lines the relay thread gets to print at
                                    each scheduling point of the main thread *)
  w_sigint : option nat;         (* Ctrl-C once the server is spawned:
                                    [Some 0] inside [Popen], before it
                                    returns the handle; [Some (S k)] after
                                    [k] further statements of the [try]
                                    block, [k >= 4] during the wait *)
  w_sigint_again : bool;         (* a second Ctrl-C, while the handler of
                                    the first waits for the server *)
  w_relay_in_print : bool;       (* the relay thread, if it is still at
                                    work when the interpreter shuts down,
                                    holds the lock of standard output *)
}.

(** Ctrl-C is taken to arrive while a child process runs and the main
    thread is in a call that waits ([subprocess.run], [Popen], [wait]) or
    between the statements that follow [Popen]: during a setup command it
    is the outcome [Interrupted] of that command, afterwards [w_sigint]. *)

(** ** The script's state *)

Record state := {
  heap : list dict;              (* dict objects by reference *)
  trace : list event;            (* oldest first *)
  next_pid : nat;
  process : option Popen;        (* [start_server]'s local variable *)
  pipe : list str;               (* unread lines of [process.stdout] *)
  logging : bool;                (* the relay thread has been started *)
  sched : list nat;
  sigint : option nat;           (* Ctrl-C not yet delivered *)
  signalled : bool;              (* [terminate()] has been called *)
}.

Definition set_heap (h : list dict) (st : state) : state :=
  {| heap := h; trace := trace st; next_pid := next_pid st;
     process := process st; pipe := pipe st; logging := logging st;
     sched := sched st; sigint := sigint st; signalled := signalled st |}.

Definition set_trace (t : list event) (st : state) : state :=
  {| heap := heap st; trace := t; next_pid := next_pid st;
     process := process st; pipe := pipe st; logging := logging st;
     sched := sched st; sigint := sigint st; signalled := signalled st |}.

Definition set_next_pid (n : nat) (st : state) : state :=
  {| heap := heap st; trace := trace st; next_pid := n;
     process := process st; pipe := pipe st; logging := logging st;
     sched := sched st; sigint := sigint st; signalled := signalled st |}.

Definition set_process (p : option Popen) (st : state) : state :=
  {| heap := heap st; trace := trace st; next_pid := next_pid st;
     process := p; pipe := pipe st; logging := logging st;
     sched := sched st; sigint := sigint st; signalled := signalled st |}.

Definition set_pipe (l : list str) (st : state) : state :=
  {| heap := heap st; trace := trace st; next_pid := next_pid st;
     process := process st; pipe := l; logging := logging st;
     sched := sched st; sigint := sigint st; signalled := signalled st |}.

Definition set_logging (b : bool) (st : state) : state :=
  {| heap := heap st; trace := trace st; next_pid := next_pid st;
     process := process st; pipe := pipe st; logging := b;
     sched := sched st; sigint := sigint st; signalled := signalled st |}.

Definition set_sched (l : list nat) (st : state) : state :=
  {| heap := heap st; trace := trace st; next_pid := next_pid st;
     process := process st; pipe := pipe st; logging := logging st;
     sched := l; sigint := sigint st; signalled := signalled st |}.

Definition set_sigint (o : option nat) (st : state) : state :=
  {| heap := heap st; trace := trace st; next_pid := next_pid st;
     process := process st; pipe := pipe st; logging := logging st;
     sched := sched st; sigint := o; signalled := signalled st |}.

Definition set_signalled (b : bool) (st : state) : state :=
  {| heap := heap st; trace := trace st; next_pid := next_pid st;
     process := process st; pipe := pipe st; logging := logging st;
     sched := sched st; sigint := sigint st; signalled := b |}.

(** [os.environ] is the first object of the store. *)
Definition os_environ : ref := 0%nat.

Definition init (w : world) : state :=
  {| heap := [w_environ w]; trace := []; next_pid := 1%nat;
     process := None; pipe := []; logging := false;
     sched := w_sched w; sigint := w_sigint w; signalled := false |}.

(** ** The monad: world reader, state, exceptions, blocking *)

Inductive result (A : Type) :=
| Ok (a : A)
| Raise (e : exn)
| Block.                     (* the main thread waits for ever *)
Arguments Ok {A} a.
Arguments Raise {A} e.
Arguments Block {A}.

Definition M (A : Type) : Type := world → state → result A * state.

Definition ret {A} (a : A) : M A := λ _ st, (Ok a, st).

Definition bind {A B} (m : M A) (f : A → M B) : M B := λ w st,
  match m w st with
  | (Ok a, st') => f a w st'
  | (Raise e, st') => (Raise e, st')
  | (Block, st') => (Block, st')
  end.

Declare Scope M_scope.
Delimit Scope M_scope with M.
Notation "x ← y ; z" := (bind y (λ x, z))
  (at level 20, y at level 100, z at level 200) : M_scope.
Notation "x ;; z" := (bind x (λ _, z))
  (at level 100, z at level 200, right associativity) : M_scope.
Local Open Scope M_scope.

Definition raise {A} (e : exn) : M A := λ _ st, (Raise e, st).
Definition block {A} : M A := λ _ st, (Block, st).
Definition ask : M world := λ w st, (Ok w, st).
Definition get : M state := λ _ st, (Ok st, st).
Definition modify (f : state → state) : M unit := λ _ st, (Ok tt, f st).
Definition emit (e : event) : M unit :=
  modify (λ st, set_trace (trace st ++ [e]) st).

(** [try: body  except ...: handler]: [handler e] is [None] when no
    [except] clause matches [e]; what a handler raises is not caught by
    its sibling clauses. *)
Definition try_except {A} (body : M A) (handler : exn → option (M A)) : M A :=
  λ w st,
    match body w st with
    | (Raise e, st') =>
        match handler e with
        | Some h => h w st'
        | None => (Raise e, st')
        end
    | r => r
    end.

(** [sys.exit(code)] *)
Definition sys_exit {A} (code : Z) : M A := raise (SystemExit code).

(** ** The relay thread *)

(** The line [log_output] prints for one line read from the pipe:
    [f"[SERVER] {line.strip()}"]. *)
Definition log_line (line : str) : str := lit "[SERVER] " ++ strip line.

(** [for line in process.stdout: print(...)] over the lines it gets to
    read. *)
Definition log_output (lines : list str) : list event :=
  map (λ line, Output (Text (log_line line))) lines.

(** A scheduling point of the main thread: once started, the relay thread
    runs for the slice the scheduler grants it, reading that many lines
    from the pipe (or as many as are left). *)
Definition yield : M unit := λ _ st,
  if logging st then
    let n := hd 0%nat (sched st) in
    (Ok tt, set_sched (tl (sched st))
              (set_pipe (drop n (pipe st))
                 (set_trace (trace st ++ log_output (take n (pipe st))) st)))
  else (Ok tt, st).

(** What is still to come once a Ctrl-C has been delivered. *)
Definition next_sigint (w : world) : option nat :=
  if w_sigint_again w then Some 0%nat else None.

(** Ctrl-C that has arrived by the point numbered [k] (see [w_sigint])
    raises [KeyboardInterrupt] in the main thread there. *)
Definition deliver_sigint (k : nat) : M unit := λ w st,
  match sigint st with
  | Some j => if (j <=? k)%nat
              then (Raise KeyboardInterrupt, set_sigint (next_sigint w) st)
              else (Ok tt, st)
  | None => (Ok tt, st)
  end.

(** A blocking call is interrupted by whatever Ctrl-C is still to come. *)
Definition interruptible : M unit := λ w st,
  match sigint st with
  | Some _ => (Raise KeyboardInterrupt, set_sigint (next_sigint w) st)
  | None => (Ok tt, st)
  end.

(** ** Library calls *)

Definition print (m : printed) : M unit := yield;; emit (Output m).

Definition new_child (argv : list str) (env : option dict) : M Popen :=
  st ← get;
  let p := {| pid := next_pid st; args := argv |} in
  modify (set_next_pid (S (next_pid st)));;
  emit (Spawn p env);;
  ret p.

(** [subprocess.run(argv, check=True, ...)]: the child inherits the
    environment, the caller waits for it, and a non-zero status raises. *)
Definition subprocess_run (argv : list str) : M unit :=
  w ← ask;
  match w_run w argv with
  | NotFound => raise (FileNotFoundError argv)
  | NotExecutable => raise (PermissionError argv)
  | Never => new_child argv None;; block
  | Exits rc =>
      p ← new_child argv None;
      emit (Reaped p rc);;
      if rc =? 0 then ret tt else raise (CalledProcessError rc argv)
  | Interrupted reaped =>
      p ← new_child argv None;
      match reaped with
      | Some rc => emit (Reaped p rc)
      | None => emit (Kill p)
      end;;
      raise KeyboardInterrupt
  end.

(** [d.copy()]: a new object with the same items. *)
Definition dict_copy (d : ref) : M ref := λ _ st,
  (Ok (length (heap st)), set_heap (heap st ++ [default ∅ (heap st !! d)]) st).

(** [d[k] = v]: the object itself is changed. *)
Definition dict_setitem (d : ref) (k v : str) : M unit :=
  modify (λ st, set_heap (alter (insert k v) d (heap st)) st).

(** [subprocess.Popen(argv, env=env, stdout=PIPE, ...)]: the child gets
    the items [env] holds at this moment.  The child exists before the
    call returns its handle: Ctrl-C in between leaves the caller without
    the handle. *)
Definition subprocess_Popen (argv : list str) (env : ref) : M Popen :=
  w ← ask;
  if srv_found (w_server w) then
    st ← get;
    p ← new_child argv (Some (default ∅ (heap st !! env)));
    modify (set_pipe (srv_lines (w_server w)));;
    deliver_sigint 0;;
    ret p
  else raise (FileNotFoundError argv).

(** [threading.Thread(target=log_output)], [daemon = True], [start()]. *)
Definition start_log_thread : M unit := modify (set_logging true).

(** The local variable [process], unbound until [Popen] has returned. *)
Definition local_process : M Popen :=
  st ← get;
  match process st with
  | Some p => ret p
  | None => raise UnboundLocalError
  end.

(** [p.terminate()] *)
Definition Popen_terminate (p : Popen) : M unit :=
  yield;; emit (Terminate p);; modify (set_signalled true).

(** [p.wait()]: a pending Ctrl-C interrupts the wait; otherwise it
    returns once the child has exited, if it ever does. *)
Definition Popen_wait (p : Popen) : M Z :=
  yield;;
  interruptible;;
  w ← ask; st ← get;
  match (if signalled st then srv_term (w_server w) else srv_own (w_server w)) with
  | Some rc => emit (Reaped p rc);; ret rc
  | None => block
  end.

(** ** The commands and messages of app.py *)

Definition node_version : list str := [lit "node"; lit "--version"].
Definition npm_version : list str := [lit "npm"; lit "--version"].
Definition npm_install : list str := [lit "npm"; lit "install"].
Definition npm_run_build : list str := [lit "npm"; lit "run"; lit "build"].
Definition npm_start : list str := [lit "npm"; lit "start"].

(* The emoji of the messages, by code point. *)
Definition package : N := 0x1F4E6.
Definition check_mark : N := 0x2705.
Definition cross_mark : N := 0x274C.
Definition hammer : N := 0x1F528.
Definition rocket : N := 0x1F680.
Definition globe : N := 0x1F310.
Definition bar_chart : N := 0x1F4CA.
Definition stop_sign : N := 0x1F6D1.
Definition brain : N := 0x1F9E0.

Definition msg_installing := package :: lit " Installing Node.js dependencies...".
Definition msg_installed := check_mark :: lit " Dependencies installed successfully".
Definition msg_install_failed := cross_mark :: lit " Failed to install dependencies: ".
Definition msg_building := hammer :: lit " Building React application...".
Definition msg_built := check_mark :: lit " Application built successfully".
Definition msg_build_failed := cross_mark :: lit " Failed to build application: ".
Definition msg_starting := rocket :: lit " Starting Emotional Codex Companion server...".
Definition msg_started := check_mark :: lit " Server started successfully on port 7860".
Definition msg_running := globe :: lit " Emotional Codex Companion is now running!".
Definition msg_features :=
  bar_chart :: lit " Features: 91+ emotion variants, professional analysis, cultural context".
Definition msg_shutting_down := 10%N :: stop_sign :: lit " Shutting down server...".
Definition msg_server_error := cross_mark :: lit " Server error: ".
Definition msg_banner := brain :: lit " Emotional Codex Companion - Hugging Face Spaces".
Definition msg_rule : str := concat (replicate 50 (lit "=")).
Definition msg_tools_missing :=
  cross_mark :: lit " Node.js and npm are required but not found".

(** ** app.py *)

Definition install_node_dependencies : M unit :=
  print (Text msg_installing);;
  try_except
    (subprocess_run npm_install;;
     print (Text msg_installed))
    (λ e, match e with
          | CalledProcessError _ _ =>
              Some (print (TextExc msg_install_failed e);; sys_exit 1)
          | _ => None
          end).

Definition build_application : M unit :=
  print (Text msg_building);;
  try_except
    (subprocess_run npm_run_build;;
     print (Text msg_built))
    (λ e, match e with
          | CalledProcessError _ _ =>
              Some (print (TextExc msg_build_failed e);; sys_exit 1)
          | _ => None
          end).

Definition start_server : M unit :=
  print (Text msg_starting);;
  env ← dict_copy os_environ;
  dict_setitem env (lit "NODE_ENV") (lit "production");;
  dict_setitem env (lit "PORT") (lit "7860");;
  try_except
    (p ← subprocess_Popen npm_start env;
     modify (set_process (Some p));;
     deliver_sigint 1;;
     start_log_thread;;
     deliver_sigint 2;;
     print (Text msg_started);;
     deliver_sigint 3;;
     print (Text msg_running);;
     deliver_sigint 4;;
     print (Text msg_features);;
     p ← local_process;
     Popen_wait p;;
     ret tt)
    (λ e, match e with
          | KeyboardInterrupt =>
              Some (print (Text msg_shutting_down);;
                    p ← local_process;
                    Popen_terminate p;;
                    p ← local_process;
                    Popen_wait p;;
                    ret tt)
          | _ =>
              if is_Exception e
              then Some (print (TextExc msg_server_error e);; sys_exit 1)
              else None
          end).

Definition main : M unit :=
  print (Text msg_banner);;
  print (Text msg_rule);;
  try_except
    (subprocess_run node_version;;
     subprocess_run npm_version)
    (λ e, match e with
          | CalledProcessError _ _ | FileNotFoundError _ =>
              Some (print (Text msg_tools_missing);; sys_exit 1)
          | _ => None
          end);;
  install_node_dependencies;;
  build_application;;
  start_server.

(** ** Running the script *)

Definition SIGINT : Z := 2.
Definition SIGABRT : Z := 6.

(** How the interpreter ends: with an exit status, killed by a signal (a
    shell shows 128 plus the signal), or not at all. *)
Inductive status :=
| Exited (code : Z)
| Killed (signal : Z)
| Blocked.

(** The relay thread is still at work: started, with lines left to read. *)
Definition relay_unfinished (st : state) : bool :=
  logging st && match pipe st with [] => false | _ :: _ => true end.

(** The interpreter shuts down.  The daemon relay thread is not joined: it
    gets a last slice and is then abandoned, and when it is abandoned
    inside a [print] the interpreter cannot take the lock of standard
    output to flush it and aborts. *)
Definition shutdown (w : world) (s : status) (st : state) : status * state :=
  let st' := (yield w st).2 in
  (if relay_unfinished st' && w_relay_in_print w then Killed SIGABRT else s,
   st').

(** [python3 app.py]: a normal return exits with 0, [SystemExit] with its
    code, an uncaught [KeyboardInterrupt] ends in death by SIGINT after the
    shutdown, another uncaught exception in exit code 1 after the
    traceback. *)
Definition run (w : world) : status * state :=
  match main w (init w) with
  | (Ok _, st) => shutdown w (Exited 0) st
  | (Raise (SystemExit c), st) => shutdown w (Exited c) st
  | (Raise KeyboardInterrupt, st) => shutdown w (Killed SIGINT) st
  | (Raise _, st) => shutdown w (Exited 1) st
  | (Block, st) => (Blocked, st)
  end.

Definition exit_status (w : world) : status := (run w).1.
Definition events (w : world) : list event := trace (run w).2.

(** ** Observations on a run *)

Definition is_output (e : event) : bool :=
  match e with Output _ => true | _ => false end.

(** The process events of a trace: everything but the printing. *)
Fixpoint proc_events (t : list event) : list event :=
  match t with
  | [] => []
  | e :: t' => if is_output e then proc_events t' else e :: proc_events t'
  end.

(** The commands started, in order. *)
Fixpoint spawned (t : list event) : list (list str) :=
  match t with
  | [] => []
  | Spawn p _ :: t' => args p :: spawned t'
  | _ :: t' => spawned t'
  end.

(** What was printed, in order. *)
Fixpoint stdout (t : list event) : list printed :=
  match t with
  | [] => []
  | Output m :: t' => m :: stdout t'
  | _ :: t' => stdout t'
  end.

(** The commands whose child was reaped with status 0, in order. *)
Fixpoint completed (t : list event) : list (list str) :=
  match t with
  | [] => []
  | Reaped p rc :: t' => if rc =? 0 then args p :: completed t' else completed t'
  | _ :: t' => completed t'
  end.

(** The children started and not yet reaped, latest first. *)
Fixpoint active_from (act : list nat) (t : list event) : list nat :=
  match t with
  | [] => act
  | Spawn p _ :: t' => active_from (pid p :: act) t'
  | Reaped p _ :: t' => active_from (filter (λ q, q ≠ pid p) act) t'
  | _ :: t' => active_from act t'
  end.

Definition active (t : list event) : list nat := active_from [] t.

Fixpoint starts_with (tag s : str) : bool :=
  match tag, s with
  | [], _ => true
  | a :: tag', b :: s' => (a =? b)%N && starts_with tag' s'
  | _ :: _, [] => false
  end.

Definition server_tag : str := lit "[SERVER] ".

(** The printed lines that carry the server tag, in order.  (The f-string
    messages with an exception all start with a cross mark.) *)
Fixpoint relayed (t : list event) : list str :=
  match t with
  | [] => []
  | Output (Text s) :: t' =>
      if starts_with server_tag s then s :: relayed t' else relayed t'
  | _ :: t' => relayed t'
  end.

(** ** Symbolic execution *)

(** The script has no loop of its own: unfolding it leaves only the
    questions it asks the world. *)
Ltac exec :=
  cbv beta iota zeta delta
    [main install_node_dependencies build_application start_server
     run events exit_status init
     bind ret raise block ask get modify emit try_except sys_exit
     print new_child subprocess_run dict_copy dict_setitem subprocess_Popen
     start_log_thread local_process Popen_terminate Popen_wait
     yield deliver_sigint interruptible next_sigint is_Exception os_environ
     shutdown relay_unfinished andb
     set_heap set_trace set_next_pid set_process set_pipe set_logging
     set_sched set_sigint set_signalled
     heap trace next_pid process pipe logging sched sigint signalled
     fst snd Nat.leb];
  cbn [app].

Ltac reduce := cbv beta iota zeta delta [Nat.leb fst snd]; cbn [app].

(** One question to the world, answered by a hypothesis when there is one
    and by cases otherwise. *)
Ltac ask_world w :=
  match goal with
  | H : w_run w ?c = _ |- context [w_run w ?c] => rewrite H
  | H : srv_found (w_server w) = _ |- context [srv_found (w_server w)] => rewrite H
  | H : w_sigint w = _ |- context [w_sigint w] => rewrite H
  | H : w_sigint_again w = _ |- context [w_sigint_again w] => rewrite H
  | H : srv_own (w_server w) = _ |- context [srv_own (w_server w)] => rewrite H
  | H : srv_term (w_server w) = _ |- context [srv_term (w_server w)] => rewrite H
  | |- context [?rc =? 0] =>
      destruct (Z.eqb_spec rc 0); try (exfalso; congruence); try subst rc
  | |- context [w_run w node_version] =>
      destruct (w_run w node_version) as [| |?rc| |[?rc|]] eqn:?
  | |- context [w_run w npm_version] =>
      destruct (w_run w npm_version) as [| |?rc| |[?rc|]] eqn:?
  | |- context [w_run w npm_install] =>
      destruct (w_run w npm_install) as [| |?rc| |[?rc|]] eqn:?
  | |- context [w_run w npm_run_build] =>
      destruct (w_run w npm_run_build) as [| |?rc| |[?rc|]] eqn:?
  | |- context [srv_found (w_server w)] => destruct (srv_found (w_server w)) eqn:?
  | |- context [match w_sigint w with _ => _ end] =>
      destruct (w_sigint w) as [[|[|[|[|[|?]]]]]|] eqn:?
  | |- context [if w_sigint_again w then _ else _] =>
      destruct (w_sigint_again w) eqn:?
  | |- context [match srv_own (w_server w) with _ => _ end] =>
      destruct (srv_own (w_server w)) eqn:?
  | |- context [match srv_term (w_server w) with _ => _ end] =>
      destruct (srv_term (w_server w)) eqn:?
  end; reduce.

Ltac run_cases w := exec; repeat ask_world w.

(** ** Vocabulary of the properties *)

(** The environment of the server process: the ambient one with the two
    assignments of lines 40 and 41 on top. *)
Definition server_env (e : dict) : dict :=
  <[lit "PORT" := lit "7860"]> (<[lit "NODE_ENV" := lit "production"]> e).

(** Toolchain check, install and build all succeed. *)
Definition setup_succeeds (w : world) : Prop :=
  w_run w node_version = Exits 0 ∧ w_run w npm_version = Exits 0 ∧
  w_run w npm_install = Exits 0 ∧ w_run w npm_run_build = Exits 0.

(** The server is launched. *)
Definition launches (w : world) : Prop :=
  setup_succeeds w ∧ srv_found (w_server w) = true.

(** The server is launched, is not interrupted, and exits with [K]. *)
Definition server_exits_on_its_own (w : world) (K : Z) : Prop :=
  launches w ∧ w_sigint w = None ∧ srv_own (w_server w) = Some K.

(** When the interpreter shuts down the relay thread has read every line
    of the server, or was never started. *)
Definition relay_finished (w : world) : Prop :=
  relay_unfinished (run w).2 = false.

(** The handle of the server process: the fifth child of a run. *)
Definition server_process : Popen := {| pid := 5; args := npm_start |}.

(** What has happened by the time the server is launched. *)
Definition setup_events : list event :=
  [ Spawn {| pid := 1; args := node_version |} None;
    Reaped {| pid := 1; args := node_version |} 0;
    Spawn {| pid := 2; args := npm_version |} None;
    Reaped {| pid := 2; args := npm_version |} 0;
    Spawn {| pid := 3; args := npm_install |} None;
    Reaped {| pid := 3; args := npm_install |} 0;
    Spawn {| pid := 4; args := npm_run_build |} None;
    Reaped {| pid := 4; args := npm_run_build |} 0 ].

(** The steps of [main] that must have succeeded before a command is
    started. *)
Definition prerequisites (c : list str) : list (list str) :=
  if decide (c = npm_version) then [node_version]
  else if decide (c = npm_install) then [node_version; npm_version]
  else if decide (c = npm_run_build) then [node_version; npm_version; npm_install]
  else if decide (c = npm_start)
       then [node_version; npm_version; npm_install; npm_run_build]
  else [].

(** Every command of the trace is started after its prerequisites have
    completed ([seen]: those completed before the trace). *)
Fixpoint ordered_from (seen : list (list str)) (t : list event) : bool :=
  match t with
  | [] => true
  | Spawn p _ :: t' =>
      forallb (λ c, bool_decide (c ∈ seen)) (prerequisites (args p))
      && ordered_from seen t'
  | Reaped p rc :: t' =>
      ordered_from (if rc =? 0 then seen ++ [args p] else seen) t'
  | _ :: t' => ordered_from seen t'
  end.

(** No more than one child is active at any point of the trace ([act]:
    those active before the trace). *)
Fixpoint one_at_a_time_from (act : list nat) (t : list event) : bool :=
  (length act <=? 1)%nat &&
  match t with
  | [] => true
  | Spawn p _ :: t' => one_at_a_time_from (pid p :: act) t'
  | Reaped p _ :: t' => one_at_a_time_from (filter (λ q, q ≠ pid p) act) t'
  | _ :: t' => one_at_a_time_from act t'
  end.

(** The toolchain check passes and [npm install] exits with [C]. *)
Definition install_exits_with (w : world) (C : Z) : Prop :=
  w_run w node_version = Exits 0 ∧ w_run w npm_version = Exits 0 ∧
  w_run w npm_install = Exits C.

(** The toolchain check and the install pass and [npm run build] exits
    with [C]. *)
Definition build_exits_with (w : world) (C : Z) : Prop :=
  w_run w node_version = Exits 0 ∧ w_run w npm_version = Exits 0 ∧
  w_run w npm_install = Exits 0 ∧ w_run w npm_run_build = Exits C.

(** The required tools and the version query that probes each. *)
Inductive tool := Node | Npm.

Definition version_query (t : tool) : list str :=
  match t with Node => node_version | Npm => npm_version end.

Definition required_tools : list tool := [Node; Npm].

(** A version query that raises what line 88 catches: there is no such
    executable, or it exits with a non-zero status. *)
Definition query_fails (c : child) : bool :=
  match c with
  | NotFound => true
  | Exits rc => negb (rc =? 0)
  | _ => false
  end.

(** A version query that raises what line 88 does not catch: the
    executable is there but cannot be executed. *)
Definition query_crashes (c : child) : bool :=
  match c with
  | NotExecutable => true
  | _ => false
  end.



(** The required tools that really cannot be invoked. *)
Definition missing_tools (w : world) : list tool :=
  filter (λ t, query_fails (w_run w (version_query t))
               || query_crashes (w_run w (version_query t)) = true)
    required_tools.



(** A line as the server wrote it, without its newline. *)
Fixpoint chomp (s : str) : str :=
  match s with
  | [] => []
  | c :: s' =>
      match s' with
      | [] => if (c =? 10)%N then [] else [c]
      | _ => c :: chomp s'
      end
  end.


(** A computation that changes no dict object and creates none. *)
Definition frames_heap {A} (m : M A) : Prop :=
  ∀ w st, heap (m w st).2 = heap st.

(** ** Worlds to run the script in *)

Definition ambient : dict :=
  {[ lit "PORT" := lit "80"; lit "NODE_ENV" := lit "development";
     lit "HOME" := lit "/home/user" ]}.

(** A server that prints one indented line and exits with [own]. *)
Definition one_line_server (own term : option Z) : server :=
  {| srv_found := true; srv_lines := [lit "  ready" ++ [10%N]];
     srv_own := own; srv_term := term |}.

(** Every command succeeds; the server prints its line and exits with 0;
    the relay thread reads the line while the main thread waits. *)
Definition world_ok : world :=
  {| w_environ := ambient; w_run := λ _, Exits 0;
     w_server := one_line_server (Some 0) (Some (-15));
     w_sched := [0; 0; 0; 1]%nat; w_sigint := None;
     w_sigint_again := false; w_relay_in_print := false |}.

Definition with_run (f : list str → child) (w : world) : world :=
  {| w_environ := w_environ w; w_run := f; w_server := w_server w;
     w_sched := w_sched w; w_sigint := w_sigint w;
     w_sigint_again := w_sigint_again w;
     w_relay_in_print := w_relay_in_print w |}.

Definition with_server (s : server) (o : option nat) (w : world) : world :=
  {| w_environ := w_environ w; w_run := w_run w; w_server := s;
     w_sched := w_sched w; w_sigint := o;
     w_sigint_again := w_sigint_again w;
     w_relay_in_print := w_relay_in_print w |}.

(** [c] exits with status 2, every other command succeeds. *)
Definition world_failing (c : list str) : world :=
  with_run (λ c', if decide (c' = c) then Exits 2 else Exits 0) world_ok.

(** [c] cannot be started, every other command succeeds. *)
Definition world_without (c : list str) : world :=
  with_run (λ c', if decide (c' = c) then NotFound else Exits 0) world_ok.

(** The server exits with status 1 by itself. *)
Definition world_server_fails : world :=
  with_server (one_line_server (Some 1) (Some (-15))) None world_ok.

(** Ctrl-C during the wait; the server exits on the termination request. *)
Definition world_interrupted : world :=
  with_server (one_line_server None (Some (-15))) (Some 5%nat) world_ok.



(** Ctrl-C inside [Popen], once the server exists. *)
Definition world_interrupted_in_popen : world :=
  with_server (one_line_server None (Some (-15))) (Some 0%nat) world_ok.

(** Ctrl-C while [c] runs; [c] does not exit in the grace period. *)
Definition world_interrupted_during (c : list str) : world :=
  with_run (λ c', if decide (c' = c) then Interrupted None else Exits 0)
    world_ok.

(** [npm start] cannot be started, every setup command succeeds. *)
Definition world_server_missing : world :=
  with_server {| srv_found := false; srv_lines := []; srv_own := None;
                 srv_term := None |} None world_ok.

(** The server runs until it is told to stop, and no Ctrl-C arrives. *)
Definition world_serving : world :=
  with_server (one_line_server None (Some (-15))) None world_ok.

(** ** Vocabulary of the further properties *)

(** The commands of [main], in the order of its calls. *)
Definition pipeline : list (list str) :=
  [node_version; npm_version; npm_install; npm_run_build; npm_start].

(** A string of whitespace only (the empty one too). *)
Definition blank (s : str) : bool := forallb isspace s.

(** * Lemmas *)

(** ** Lemmas on the observations *)

Lemma proc_events_app t1 t2 :
  proc_events (t1 ++ t2) = proc_events t1 ++ proc_events t2.
Proof.
  induction t1 as [|e t1 IH]; [done|].
  cbn. destruct (is_output e); cbn; congruence.
Qed.

Lemma proc_events_log_output lines : proc_events (log_output lines) = [].
Proof. induction lines; [done|]. cbn. assumption. Qed.

Lemma spawned_proc_events t : spawned (proc_events t) = spawned t.
Proof. induction t as [|e t IH]; [done|]. destruct e; cbn; congruence. Qed.

Lemma stdout_app t1 t2 : stdout (t1 ++ t2) = stdout t1 ++ stdout t2.
Proof. induction t1 as [|e t1 IH]; [done|]. destruct e; cbn; congruence. Qed.




Lemma completed_app t1 t2 :
  completed (t1 ++ t2) = completed t1 ++ completed t2.
Proof.
  induction t1 as [|e t1 IH]; [done|].
  destruct e as [| |p rc| |]; cbn; try congruence.
  destruct (rc =? 0); cbn; congruence.
Qed.

Lemma ordered_from_proc_events seen t :
  ordered_from seen (proc_events t) = ordered_from seen t.
Proof.
  revert seen. induction t as [|e t IH]; intros seen; [done|].
  destruct e; cbn; by rewrite ?IH.
Qed.

Lemma one_at_a_time_from_head act t :
  one_at_a_time_from act t = (length act <=? 1)%nat && one_at_a_time_from act t.
Proof. destruct t; cbn; by destruct (length act <=? 1)%nat. Qed.

Lemma one_at_a_time_from_proc_events act t :
  one_at_a_time_from act (proc_events t) = one_at_a_time_from act t.
Proof.
  revert act. induction t as [|e t IH]; intros act; [done|].
  destruct e; cbn; rewrite ?IH; try done.
  apply one_at_a_time_from_head.
Qed.

Lemma active_from_app act t1 t2 :
  active_from act (t1 ++ t2) = active_from (active_from act t1) t2.
Proof.
  revert act. induction t1 as [|e t1 IH]; intros act; [done|].
  destruct e; cbn; auto.
Qed.

(** The checker is sound for every point of the trace. *)
Lemma one_at_a_time_from_sound act t :
  one_at_a_time_from act t = true →
  ∀ t1, t1 `prefix_of` t → (length (active_from act t1) ≤ 1)%nat.
Proof.
  revert act. induction t as [|e t IH]; intros act H t1 [k Hk].
  - symmetry in Hk. apply app_eq_nil in Hk as [-> _]. cbn in *.
    apply andb_true_iff in H as [H _]. by apply Nat.leb_le.
  - cbn in H. apply andb_true_iff in H as [Hlen H].
    destruct t1 as [|e1 t1]; [cbn; by apply Nat.leb_le|].
    cbn in Hk. injection Hk as <- ->.
    destruct e; cbn; apply IH; (assumption || by exists k).
Qed.

(** The checker is sound for every command started in the trace. *)
Lemma ordered_from_sound seen t :
  ordered_from seen t = true →
  ∀ t1 p o t2, t = t1 ++ Spawn p o :: t2 →
  ∀ c, c ∈ prerequisites (args p) → c ∈ seen ++ completed t1.
Proof.
  revert seen. induction t as [|e t IH]; intros seen H t1 p o t2 Ht c Hc.
  - by destruct t1.
  - destruct t1 as [|e1 t1]; cbn in Ht; injection Ht as -> ->.
    + cbn in H. apply andb_true_iff in H as [H _].
      rewrite forallb_forall in H. rewrite app_nil_r.
      apply list_elem_of_In, H, bool_decide_eq_true in Hc. exact Hc.
    + destruct e1 as [m|q o'|q rc|q|q]; cbn in H |- *.
      * by eapply IH.
      * apply andb_true_iff in H as [_ H]. by eapply IH.
      * destruct (rc =? 0).
        -- change (seen ++ args q :: completed t1)
             with (seen ++ [args q] ++ completed t1).
           rewrite (assoc_L (++)). by eapply IH.
        -- by eapply IH.
      * by eapply IH.
      * by eapply IH.
Qed.

(** Projects the trace built by symbolic execution onto its process
    events. *)
Ltac project :=
  cbn [proc_events is_output app];
  repeat (rewrite ?proc_events_app, ?proc_events_log_output;
          cbn [proc_events is_output app]);
  rewrite ?app_nil_r.

(** Closes a decidable goal on closed commands by evaluation. *)
Ltac by_evaluation := apply (bool_decide_unpack _); vm_compute; reflexivity.

(** * Properties of the script *)

(** ** C3: the setup steps form a fail-fast chain *)

(** C3. When [npm install] exits with a non-zero status, neither
    [npm run build] nor [npm start] is ever started; when [npm run build]
    exits with a non-zero status, [npm start] is never started. *)
Theorem fail_fast w rc :
  rc ≠ 0 →
  (w_run w npm_install = Exits rc →
   (npm_run_build ∉ spawned (events w)) ∧ npm_start ∉ spawned (events w)) ∧
  (w_run w npm_run_build = Exits rc → npm_start ∉ spawned (events w)).
Proof.
  intros Hrc. split; [intros Hi; split|intros Hb].
  all: run_cases w; cbn [spawned args]; by_evaluation.
Qed.

Lemma fail_fast_witness :
  ((npm_run_build ∉ spawned (events (world_failing npm_install))) ∧
   npm_start ∉ spawned (events (world_failing npm_install))) ∧
  npm_start ∉ spawned (events (world_failing npm_run_build)).
Proof.
  split.
  - apply (fail_fast (world_failing npm_install) 2); [lia|reflexivity].
  - apply (fail_fast (world_failing npm_run_build) 2); [lia|reflexivity].
Defined.

(** ** C7: the phases are strictly ordered *)

Lemma run_ordered w : ordered_from [] (events w) = true.
Proof.
  rewrite <- ordered_from_proc_events.
  run_cases w; project; vm_compute; reflexivity.
Qed.

(** C7. Whenever a command is started: if it is a setup step or the server,
    both version queries of the toolchain check have completed with status
    0 before; if it is [npm run build], [npm install] has completed with
    status 0 before; if it is [npm start], [npm run build] has completed
    with status 0 before. *)
Theorem phases_ordered w t1 p o t2 :
  events w = t1 ++ Spawn p o :: t2 →
  (args p ∈ [npm_install; npm_run_build; npm_start] →
   node_version ∈ completed t1 ∧ npm_version ∈ completed t1) ∧
  (args p = npm_run_build → npm_install ∈ completed t1) ∧
  (args p = npm_start → npm_run_build ∈ completed t1).
Proof.
  intros Ht.
  pose proof (ordered_from_sound [] (events w) (run_ordered w) t1 p o t2 Ht) as H.
  cbn [app] in H.
  split; [|split]; intros Hp.
  - rewrite !elem_of_cons in Hp. destruct Hp as [Hp|[Hp|[Hp|Hp]]];
      [| | |by apply elem_of_nil in Hp].
    all: rewrite Hp in H; split; apply H; by_evaluation.
  - rewrite Hp in H. apply H. by_evaluation.
  - rewrite Hp in H. apply H. by_evaluation.
Qed.

Lemma phases_ordered_witness :
  (node_version ∈ completed (take 15 (events world_ok)) ∧
   npm_version ∈ completed (take 15 (events world_ok))) ∧
  npm_install ∈ completed (take 11 (events world_ok)) ∧
  npm_run_build ∈ completed (take 15 (events world_ok)).
Proof.
  assert (events world_ok =
          take 15 (events world_ok)
          ++ Spawn server_process (Some (server_env ambient))
          :: drop 16 (events world_ok)) as Hserver
    by (vm_compute; reflexivity).
  assert (events world_ok =
          take 11 (events world_ok)
          ++ Spawn {| pid := 4; args := npm_run_build |} None
          :: drop 12 (events world_ok)) as Hbuild
    by (vm_compute; reflexivity).
  destruct (phases_ordered _ _ _ _ _ Hserver) as (Htools & _ & Hstart).
  destruct (phases_ordered _ _ _ _ _ Hbuild) as (_ & Hinstall & _).
  split; [apply Htools; by_evaluation|].
  split; [by apply Hinstall|by apply Hstart].
Defined.

(** ** C9: at most one child process is active *)

Lemma run_one_at_a_time w : one_at_a_time_from [] (events w) = true.
Proof.
  rewrite <- one_at_a_time_from_proc_events.
  run_cases w; project; vm_compute; reflexivity.
Qed.

(** C9. At every point of every run (after any initial part of its
    events), at most one child process has been started and not yet
    reaped. *)
Theorem one_active_process w t :
  t `prefix_of` events w → (length (active t) ≤ 1)%nat.
Proof.
  intros Ht. unfold active.
  by apply (one_at_a_time_from_sound [] (events w) (run_one_at_a_time w)).
Qed.

Lemma one_active_process_witness :
  (length (active (take 16 (events world_ok))) ≤ 1)%nat.
Proof.
  apply (one_active_process world_ok).
  exists (drop 16 (events world_ok)). vm_compute. reflexivity.
Defined.

Example server_is_the_active_one : active (take 16 (events world_ok)) = [5%nat].
Proof. vm_compute. reflexivity. Qed.

Example two_children_are_rejected :
  one_at_a_time_from []
    [Spawn {| pid := 1; args := npm_install |} None;
     Spawn {| pid := 2; args := npm_run_build |} None] = false.
Proof. reflexivity. Qed.

(** ** C6: the environment of the server process *)

Lemma elem_of_proc_events e t :
  e ∈ t → is_output e = false → e ∈ proc_events t.
Proof.
  intros He Hout. induction He as [e t|e e' t He IH]; cbn.
  - rewrite Hout. apply list_elem_of_here.
  - destruct (is_output e'); [by apply IH|by apply list_elem_of_further, IH].
Qed.

Lemma server_env_lookup e :
  server_env e !! lit "NODE_ENV" = Some (lit "production") ∧
  server_env e !! lit "PORT" = Some (lit "7860").
Proof.
  unfold server_env. split.
  - rewrite lookup_insert_ne by (vm_compute; discriminate).
    apply lookup_insert_eq.
  - apply lookup_insert_eq.
Qed.

(** Case analysis on the membership of an event in an explicit list. *)
Ltac elem_cases H :=
  repeat (apply elem_of_cons in H as [H|H]); [..|by apply elem_of_nil in H].

(** C6. Whatever the ambient environment holds, every [npm start] process
    is given the ambient environment with NODE_ENV set to "production" and
    PORT set to "7860" on top; the server process is started with it
    whenever the setup succeeds and [npm start] can be started. *)
Theorem server_environment w :
  (∀ p o, Spawn p o ∈ events w → args p = npm_start →
          o = Some (server_env (w_environ w))) ∧
  (launches w →
   Spawn server_process (Some (server_env (w_environ w))) ∈ events w) ∧
  server_env (w_environ w) !! lit "NODE_ENV" = Some (lit "production") ∧
  server_env (w_environ w) !! lit "PORT" = Some (lit "7860").
Proof.
  split; [|split; [|apply server_env_lookup]].
  - intros p o Hin Hp. apply elem_of_proc_events in Hin; [|done].
    revert Hin. run_cases w; project; intros Hin; elem_cases Hin.
    all: try discriminate Hin.
    all: injection Hin as -> ->; try (vm_compute in Hp; discriminate Hp).
    all: reflexivity.
  - intros [(Hnode & Hnpm & Hinstall & Hbuild) Hfound].
    run_cases w.
    all: do 15 apply list_elem_of_further; apply list_elem_of_here.
Qed.

Lemma server_environment_witness :
  Spawn server_process (Some (server_env ambient)) ∈ events world_ok ∧
  server_env ambient !! lit "NODE_ENV" = Some (lit "production") ∧
  server_env ambient !! lit "PORT" = Some (lit "7860").
Proof.
  destruct (server_environment world_ok) as (_ & Hlaunch & Hmode & Hport).
  split; [|by split].
  apply Hlaunch. repeat split; reflexivity.
Defined.

Example ambient_bindings_are_overridden :
  ambient !! lit "PORT" = Some (lit "80") ∧
  ambient !! lit "NODE_ENV" = Some (lit "development") ∧
  server_env ambient !! lit "HOME" = Some (lit "/home/user").
Proof. repeat split; vm_compute; reflexivity. Qed.

(** ** C10: launching the server leaves [os.environ] alone *)

Section frames_heap.
Context {A B : Type}.

Lemma frames_ret (a : A) : frames_heap (ret a).
Proof. done. Qed.

Lemma frames_raise e : frames_heap (raise (A:=A) e).
Proof. done. Qed.

Lemma frames_block : frames_heap (block (A:=A)).
Proof. done. Qed.

Lemma frames_bind (m : M A) (f : A → M B) :
  frames_heap m → (∀ a, frames_heap (f a)) → frames_heap (bind m f).
Proof.
  intros Hm Hf w st. unfold bind. specialize (Hm w st).
  destruct (m w st) as [[a|e|] st']; cbn in *; [|done..].
  by rewrite Hf.
Qed.

Lemma frames_try (body : M A) handler :
  frames_heap body →
  (∀ e h, handler e = Some h → frames_heap h) →
  frames_heap (try_except body handler).
Proof.
  intros Hb Hh w st. unfold try_except. specialize (Hb w st).
  destruct (body w st) as [[a|e|] st']; cbn in *; [done| |done].
  destruct (handler e) as [h|] eqn:He; [|done].
  by rewrite (Hh e h He).
Qed.
End frames_heap.

Lemma frames_modify f :
  (∀ st, heap (f st) = heap st) → frames_heap (modify f).
Proof. intros Hf w st. apply Hf. Qed.

Lemma frames_get : frames_heap get.
Proof. done. Qed.

Lemma frames_ask : frames_heap ask.
Proof. done. Qed.

Lemma frames_yield : frames_heap yield.
Proof. intros w st. unfold yield. by destruct (logging st). Qed.

Lemma frames_deliver_sigint k : frames_heap (deliver_sigint k).
Proof.
  intros w st. unfold deliver_sigint.
  destruct (sigint st) as [j|]; [|done]. by destruct (j <=? k)%nat.
Qed.

Lemma frames_interruptible : frames_heap interruptible.
Proof. intros w st. unfold interruptible. by destruct (sigint st). Qed.

Create HintDb frames discriminated.

#[local] Hint Resolve frames_ret frames_raise frames_block frames_get
  frames_ask frames_yield frames_deliver_sigint frames_interruptible : frames.
#[local] Hint Extern 1 (frames_heap (bind _ _)) =>
  apply frames_bind; [|intros ?] : frames.
#[local] Hint Extern 1 (frames_heap (modify _)) =>
  apply frames_modify; intros ?; reflexivity : frames.
#[local] Hint Extern 2 (frames_heap (match ?x with _ => _ end)) =>
  destruct x : frames.
#[local] Hint Extern 2 (frames_heap (if ?x then _ else _)) =>
  destruct x : frames.
#[local] Hint Unfold emit sys_exit : frames.

Lemma frames_print m : frames_heap (print m).
Proof. unfold print. auto 10 with frames. Qed.

Lemma frames_new_child argv env : frames_heap (new_child argv env).
Proof. unfold new_child. auto 10 with frames. Qed.

#[local] Hint Resolve frames_print frames_new_child : frames.

Lemma frames_subprocess_Popen argv env :
  frames_heap (subprocess_Popen argv env).
Proof. unfold subprocess_Popen. auto 10 with frames. Qed.

Lemma frames_local_process : frames_heap local_process.
Proof. unfold local_process. auto 10 with frames. Qed.

Lemma frames_Popen_terminate p : frames_heap (Popen_terminate p).
Proof. unfold Popen_terminate. auto 10 with frames. Qed.

Lemma frames_Popen_wait p : frames_heap (Popen_wait p).
Proof. unfold Popen_wait. auto 10 with frames. Qed.

Lemma frames_start_log_thread : frames_heap start_log_thread.
Proof. unfold start_log_thread. auto with frames. Qed.

#[local] Hint Resolve frames_subprocess_Popen frames_local_process
  frames_Popen_terminate frames_Popen_wait frames_start_log_thread : frames.

(** The [try] statement of [start_server], given the reference [env]. *)
Lemma frames_start_server_try env :
  frames_heap
    (try_except
       (p ← subprocess_Popen npm_start env;
        modify (set_process (Some p));;
        deliver_sigint 1;;
        start_log_thread;;
        deliver_sigint 2;;
        print (Text msg_started);;
        deliver_sigint 3;;
        print (Text msg_running);;
        deliver_sigint 4;;
        print (Text msg_features);;
        p ← local_process;
        Popen_wait p;;
        ret tt)
       (λ e, match e with
             | KeyboardInterrupt =>
                 Some (print (Text msg_shutting_down);;
                       p ← local_process;
                       Popen_terminate p;;
                       p ← local_process;
                       Popen_wait p;;
                       ret tt)
             | _ =>
                 if is_Exception e
                 then Some (print (TextExc msg_server_error e);; sys_exit 1)
                 else None
             end)).
Proof.
  apply frames_try; [auto 20 with frames|].
  intros e h He.
  destruct e; cbn in He; try discriminate He; injection He as <-.
  all: auto 10 with frames.
Qed.

(** What [start_server] does to the store: one new dict, a copy of
    [os.environ] with the two assignments; nothing else changes. *)
Lemma bind_ok {A B} (m : M A) (f : A → M B) w st a st' :
  m w st = (Ok a, st') → bind m f w st = f a w st'.
Proof. intros H. unfold bind. by rewrite H. Qed.

Lemma print_ok m w st :
  ∃ st', print m w st = (Ok tt, st') ∧ heap st' = heap st.
Proof.
  unfold print, bind, yield, emit, modify.
  destruct (logging st); eexists; split; reflexivity.
Qed.

Lemma start_server_heap w st :
  heap (start_server w st).2 =
  alter (insert (lit "PORT") (lit "7860")) (length (heap st))
    (alter (insert (lit "NODE_ENV") (lit "production")) (length (heap st))
       (heap st ++ [default ∅ (heap st !! os_environ)])).
Proof.
  destruct (print_ok (Text msg_starting) w st) as (st1 & Hprint & Hheap).
  unfold start_server.
  rewrite (bind_ok _ _ _ _ _ _ Hprint).
  erewrite (bind_ok (dict_copy _)) by reflexivity.
  erewrite (bind_ok (dict_setitem _ _ _)) by reflexivity.
  erewrite (bind_ok (dict_setitem _ _ _)) by reflexivity.
  rewrite frames_start_server_try. cbn [heap set_heap]. by rewrite Hheap.
Qed.

(** C10. [start_server] leaves the dict object behind [os.environ] as it
    was: from any state in which [os.environ] holds the mapping [d], it
    holds [d] afterwards (the assignments go to the copy). *)
Theorem start_server_keeps_environ w st d :
  heap st !! os_environ = Some d →
  heap (start_server w st).2 !! os_environ = Some d.
Proof.
  intros Hd. rewrite start_server_heap.
  assert (os_environ < length (heap st))%nat as Hlt
    by (apply lookup_lt_is_Some; eauto).
  rewrite !list_lookup_alter_ne by lia.
  by rewrite lookup_app_l.
Qed.

Lemma start_server_keeps_environ_witness :
  heap (start_server world_ok (init world_ok)).2 !! os_environ = Some ambient.
Proof.
  apply (start_server_keeps_environ world_ok (init world_ok) ambient).
  reflexivity.
Defined.

(** The whole run leaves [os.environ] as it found it. *)
Lemma run_keeps_environ w :
  heap (run w).2 !! os_environ = Some (w_environ w).
Proof. run_cases w; reflexivity. Qed.

Example the_copy_is_what_changes :
  heap (start_server world_ok (init world_ok)).2 = [ambient; server_env ambient].
Proof. vm_compute. reflexivity. Qed.

(** ** C1: a server that fails by itself *)

(** C1, as amended. When the server exits by itself with status [K], zero
    or not, the script reaps it and discards [K]; when the relay thread has
    finished by the time the interpreter shuts down, the script exits with
    status 0. *)
Theorem server_exit_status_discarded w K :
  server_exits_on_its_own w K →
  last (proc_events (events w)) = Some (Reaped server_process K) ∧
  (relay_finished w → exit_status w = Exited 0).
Proof.
  intros [[(Hnode & Hnpm & Hinstall & Hbuild) Hfound] [Hsigint Hown]].
  split.
  - run_cases w. project. reflexivity.
  - unfold relay_finished. run_cases w. intros Hfinished.
    by rewrite Hfinished.
Qed.

Lemma server_exit_status_discarded_witness :
  last (proc_events (events world_server_fails))
  = Some (Reaped server_process 1) ∧
  exit_status world_server_fails = Exited 0.
Proof.
  destruct (server_exit_status_discarded world_server_fails 1)
    as [Hreaped Hexit].
  - repeat split; reflexivity.
  - split; [exact Hreaped|]. apply Hexit. vm_compute. reflexivity.
Defined.

(** C1 as stated fails: the server of [world_server_fails] exits by itself
    with status 1 and the script exits with status 0. *)
Lemma server_failure_not_reflected :
  server_exits_on_its_own world_server_fails 1 ∧
  exit_status world_server_fails = Exited 0 ∧
  ¬ (∀ w K, server_exits_on_its_own w K → K ≠ 0 →
            ∃ c, exit_status w = Exited c ∧ c ≠ 0).
Proof.
  assert (server_exits_on_its_own world_server_fails 1) as Hown
    by (repeat split; reflexivity).
  split; [exact Hown|]. split; [vm_compute; reflexivity|].
  intros H. destruct (H world_server_fails 1 Hown) as (c & Hc & Hne); [lia|].
  vm_compute in Hc. injection Hc as <-. by apply Hne.
Qed.

(** ** C2: a setup step that fails *)

(** C2, as amended. When [npm install] or [npm run build] exits with a
    non-zero status [C], the script prints the failure message of that step
    with the exception that carries [C], starts nothing more, and exits
    with status 1 whatever [C] is. *)
Theorem setup_failure_exits_with_1 w C :
  C ≠ 0 →
  (install_exits_with w C →
   last (proc_events (events w))
   = Some (Reaped {| pid := 3; args := npm_install |} C) ∧
   last (events w)
   = Some (Output (TextExc msg_install_failed (CalledProcessError C npm_install))) ∧
   exit_status w = Exited 1) ∧
  (build_exits_with w C →
   last (proc_events (events w))
   = Some (Reaped {| pid := 4; args := npm_run_build |} C) ∧
   last (events w)
   = Some (Output (TextExc msg_build_failed (CalledProcessError C npm_run_build))) ∧
   exit_status w = Exited 1).
Proof.
  intros HC. split.
  - intros (Hnode & Hnpm & Hinstall).
    repeat split; run_cases w; reflexivity.
  - intros (Hnode & Hnpm & Hinstall & Hbuild).
    repeat split; run_cases w; reflexivity.
Qed.

Lemma setup_failure_exits_with_1_witness :
  exit_status (world_failing npm_install) = Exited 1 ∧
  exit_status (world_failing npm_run_build) = Exited 1.
Proof.
  assert (2 ≠ 0) as Hne by lia.
  split.
  - destruct (setup_failure_exits_with_1 (world_failing npm_install) 2 Hne)
      as [Hinstall _].
    apply Hinstall. repeat split; reflexivity.
  - destruct (setup_failure_exits_with_1 (world_failing npm_run_build) 2 Hne)
      as [_ Hbuild].
    apply Hbuild. repeat split; reflexivity.
Defined.

(** C2 as stated fails: [npm install] exits with status 2 in
    [world_failing npm_install] and the script exits with status 1. *)
Lemma setup_failure_code_not_reflected :
  install_exits_with (world_failing npm_install) 2 ∧
  exit_status (world_failing npm_install) = Exited 1 ∧
  ¬ (∀ w C, C ≠ 0 → install_exits_with w C → exit_status w = Exited C).
Proof.
  assert (install_exits_with (world_failing npm_install) 2) as Hfails
    by (repeat split; reflexivity).
  split; [exact Hfails|]. split; [vm_compute; reflexivity|].
  intros H. specialize (H (world_failing npm_install) 2 ltac:(lia) Hfails).
  vm_compute in H. discriminate H.
Qed.

(** ** C4: the report of a failed toolchain check *)




(** The output cannot tell which tool is missing: it is the same whether
    node or npm is the one that cannot be started. *)
Lemma report_is_the_same_for_either_tool :
  stdout (events (world_without node_version))
  = stdout (events (world_without npm_version)) ∧
  missing_tools (world_without node_version) = [Node] ∧
  missing_tools (world_without npm_version) = [Npm].
Proof. repeat split; vm_compute; reflexivity. Qed.

(** ** C5: relaying the output of a server that exits with 0 *)







(** The relay thread is never joined: when it is still inside a [print]
    as the interpreter shuts down, the interpreter aborts. *)
Example interpreter_aborts_on_a_busy_relay :
  let w := {| w_environ := ambient; w_run := λ _, Exits 0;
              w_server := one_line_server (Some 0) (Some (-15));
              w_sched := []; w_sigint := None; w_sigint_again := false;
              w_relay_in_print := true |} in
  server_exits_on_its_own w 0 ∧ exit_status w = Killed SIGABRT.
Proof. split; [repeat split; reflexivity|vm_compute; reflexivity]. Qed.

(** A second Ctrl-C ends the wait for a server that ignores the
    termination request: the script is killed by SIGINT. *)
Example second_interrupt_ends_the_wait :
  let w := {| w_environ := ambient; w_run := λ _, Exits 0;
              w_server := one_line_server None None;
              w_sched := [0; 1]%nat; w_sigint := Some 5%nat;
              w_sigint_again := true; w_relay_in_print := false |} in
  exit_status w = Killed SIGINT ∧
  last (proc_events (events w)) = Some (Terminate server_process).
Proof. split; vm_compute; reflexivity. Qed.

Example strip_examples :
  strip (lit "  ready" ++ [10%N]) = lit "ready" ∧
  strip (lit "a b" ++ [13%N; 10%N]) = lit "a b" ∧
  strip [160%N; 9%N] = [] ∧
  chomp (lit "  ready" ++ [10%N]) = lit "  ready".
Proof. repeat split; vm_compute; reflexivity. Qed.

(** ** C8: Ctrl-C while the server runs *)




(** * Further properties of the script *)

Lemma proc_events_elem_of e t : e ∈ proc_events t → e ∈ t.
Proof.
  induction t as [|e' t IH]; cbn; [done|].
  destruct (is_output e').
  - intros He. by apply list_elem_of_further, IH.
  - intros [->|He]%elem_of_cons; [apply list_elem_of_here|].
    by apply list_elem_of_further, IH.
Qed.

Lemma active_from_proc_events act t :
  active_from act (proc_events t) = active_from act t.
Proof.
  revert act. induction t as [|e t IH]; intros act; [done|].
  destruct e; cbn; by rewrite ?IH.
Qed.

(** Closes a case whose status cannot be the one assumed, whether or not
    the interpreter aborts at shutdown. *)
Ltac refute_status H :=
  solve [ discriminate H
        | match type of H with
          | (if ?c then _ else _) = _ => destruct c; discriminate H
          end ].

(** Finds an event in an explicit list. *)
Ltac find_event :=
  solve [repeat first [apply list_elem_of_here | apply list_elem_of_further]].

(** ** X2: exit code 0 means the server was reaped *)

(** X2. The script exits with code 0 only after the setup has succeeded,
    the server has been started and the script has reaped it: after the
    server exited by itself, or after it exited on the termination request
    that follows Ctrl-C. *)
Theorem exits_0_only_after_server_reaped w :
  exit_status w = Exited 0 →
  launches w ∧ ∃ rc, Reaped server_process rc ∈ events w.
Proof.
  run_cases w; intros H; try refute_status H.
  all: split; [repeat split; assumption|].
  all: eexists; apply proc_events_elem_of; project; find_event.
Qed.

Lemma exits_0_only_after_server_reaped_witness :
  launches world_interrupted ∧
  ∃ rc, Reaped server_process rc ∈ events world_interrupted.
Proof.
  apply (exits_0_only_after_server_reaped world_interrupted).
  vm_compute. reflexivity.
Defined.

(** ** X3: no child is left behind at exit code 0 *)

(** X3. When the script exits with code 0, every child it started has
    been reaped. *)
Theorem no_child_left_at_exit_0 w :
  exit_status w = Exited 0 → active (events w) = [].
Proof.
  unfold active. rewrite <- active_from_proc_events.
  run_cases w; project; intros H; try refute_status H.
  all: vm_compute; reflexivity.
Qed.

Lemma no_child_left_at_exit_0_witness : active (events world_ok) = [].
Proof.
  apply (no_child_left_at_exit_0 world_ok). vm_compute. reflexivity.
Defined.

(** ** X4: when the server is launched *)

(** X4. [npm start] is started exactly when both version queries, the
    install and the build have exited with status 0 and the executable of
    [npm start] can be started. *)
Theorem server_started_iff_setup_succeeds w :
  npm_start ∈ spawned (events w) ↔ launches w.
Proof.
  rewrite <- spawned_proc_events. split.
  - run_cases w; project; cbn [spawned args]; intros H.
    all: try (repeat split; assumption).
    all: exfalso; elem_cases H; vm_compute in H; discriminate H.
  - intros [(Hnode & Hnpm & Hinstall & Hbuild) Hfound].
    run_cases w; project; cbn [spawned args]; by_evaluation.
Qed.

Lemma server_started_iff_setup_succeeds_witness :
  npm_start ∈ spawned (events world_ok) ∧
  ¬ launches (world_failing npm_run_build).
Proof.
  split.
  - apply (server_started_iff_setup_succeeds world_ok).
    repeat split; reflexivity.
  - intros H.
    apply (server_started_iff_setup_succeeds (world_failing npm_run_build)) in H.
    revert H. by_evaluation.
Defined.

(** ** X5: the order of the commands *)

(** X5. The commands a run starts are an initial part of node --version,
    npm --version, npm install, npm run build, npm start: they are started
    in this order, each at most once, and none is retried. *)
Theorem commands_follow_the_pipeline w :
  spawned (events w) `prefix_of` pipeline.
Proof.
  rewrite <- spawned_proc_events.
  run_cases w; project; cbn [spawned args]; unfold pipeline;
    eexists; reflexivity.
Qed.

(** ** X6: the server cannot be started *)

(** X6. When the setup succeeds and [npm start] cannot be started, the
    script prints the server error message with the exception, has started
    no child besides the four of the setup, and exits with code 1. *)
Theorem launch_failure_exits_with_1 w :
  setup_succeeds w → srv_found (w_server w) = false →
  proc_events (events w) = setup_events ∧
  last (events w)
  = Some (Output (TextExc msg_server_error (FileNotFoundError npm_start))) ∧
  exit_status w = Exited 1.
Proof.
  intros (Hnode & Hnpm & Hinstall & Hbuild) Hfound.
  repeat split; run_cases w; reflexivity.
Qed.

Lemma launch_failure_exits_with_1_witness :
  proc_events (events world_server_missing) = setup_events ∧
  last (events world_server_missing)
  = Some (Output (TextExc msg_server_error (FileNotFoundError npm_start))) ∧
  exit_status world_server_missing = Exited 1.
Proof.
  apply (launch_failure_exits_with_1 world_server_missing).
  - repeat split; reflexivity.
  - reflexivity.
Defined.

(** ** X7: a setup command that cannot be started *)

(** X7. The setup steps catch [CalledProcessError] only.  When the
    toolchain check passes and the command of a setup step cannot be
    started, the step's failure message is not printed: the last line of
    output is the step's announcement, no child is started for the step,
    and the script exits with code 1 through the uncaught exception. *)
Theorem missing_setup_command_is_not_reported w :
  w_run w node_version = Exits 0 → w_run w npm_version = Exits 0 →
  (w_run w npm_install = NotFound →
   last (events w) = Some (Output (Text msg_installing)) ∧
   spawned (events w) = [node_version; npm_version] ∧
   exit_status w = Exited 1) ∧
  (w_run w npm_install = Exits 0 → w_run w npm_run_build = NotFound →
   last (events w) = Some (Output (Text msg_building)) ∧
   spawned (events w) = [node_version; npm_version; npm_install] ∧
   exit_status w = Exited 1).
Proof.
  intros Hnode Hnpm. split.
  - intros Hinstall. repeat split; run_cases w; reflexivity.
  - intros Hinstall Hbuild. repeat split; run_cases w; reflexivity.
Qed.

Lemma missing_setup_command_is_not_reported_witness :
  last (events (world_without npm_install))
  = Some (Output (Text msg_installing)) ∧
  last (events (world_without npm_run_build))
  = Some (Output (Text msg_building)).
Proof.
  split.
  - destruct (missing_setup_command_is_not_reported (world_without npm_install))
      as [Hinstall _]; [reflexivity..|].
    apply Hinstall. reflexivity.
  - destruct (missing_setup_command_is_not_reported (world_without npm_run_build))
      as [_ Hbuild]; [reflexivity..|].
    apply Hbuild; reflexivity.
Defined.

(** ** X8: termination requests *)

(** X8. A termination request is only ever sent to the server process,
    only after Ctrl-C, and only after the server has been started: without
    an interruption the script never terminates a child. *)
Theorem terminate_only_on_interrupt w p :
  Terminate p ∈ events w →
  p = server_process ∧ is_Some (w_sigint w) ∧ launches w.
Proof.
  intros H. apply elem_of_proc_events in H; [|done].
  revert H. run_cases w; project; intros H; elem_cases H.
  all: try discriminate H.
  all: injection H as ->.
  all: split; [reflexivity|split; [by eexists|repeat split; assumption]].
Qed.

Lemma terminate_only_on_interrupt_witness :
  server_process = server_process ∧ is_Some (w_sigint world_interrupted) ∧
  launches world_interrupted.
Proof.
  apply (terminate_only_on_interrupt world_interrupted server_process).
  vm_compute. find_event.
Defined.

(** ** X9: what the relay thread prints, in every run *)





(** ** X10: the environment of the children *)

(** X10. The server process is given every ambient variable other than
    NODE_ENV and PORT with its ambient value (or absent, when it is absent
    from the ambient environment); every other child is started without an
    environment of its own and inherits the script's. *)
Theorem children_environment w p o :
  Spawn p o ∈ events w →
  (args p = npm_start →
   ∃ env, o = Some env ∧
          ∀ k, k ≠ lit "NODE_ENV" → k ≠ lit "PORT" →
               env !! k = w_environ w !! k) ∧
  (args p ≠ npm_start → o = None).
Proof.
  intros Hin. apply elem_of_proc_events in Hin; [|done].
  revert Hin. run_cases w; project; intros Hin; elem_cases Hin.
  all: try discriminate Hin.
  all: injection Hin as -> ->; cbn [args]; split; intros Hp.
  all: try reflexivity.
  all: try (vm_compute in Hp; discriminate Hp).
  all: try (by destruct Hp).
  all: exists (server_env (w_environ w)); split; [reflexivity|].
  all: intros k Hmode Hport; unfold server_env.
  all: by rewrite !lookup_insert_ne.
Qed.

Lemma children_environment_witness :
  (∃ env, Some (server_env ambient) = Some env ∧
          ∀ k, k ≠ lit "NODE_ENV" → k ≠ lit "PORT" →
               env !! k = ambient !! k) ∧
  None = None (A := dict).
Proof.
  assert (Spawn server_process (Some (server_env ambient)) ∈ events world_ok)
    as Hserver by (vm_compute; find_event).
  assert (Spawn {| pid := 3; args := npm_install |} None ∈ events world_ok)
    as Hinstall by (vm_compute; find_event).
  split.
  - apply (children_environment _ _ _ Hserver). reflexivity.
  - apply (children_environment _ _ _ Hinstall). vm_compute. discriminate.
Defined.

(** ** X13: the success messages *)

(** X13. "Dependencies installed successfully" is printed exactly when the
    toolchain check passed and [npm install] exited with status 0, and
    "Application built successfully" exactly when, besides,
    [npm run build] exited with status 0. *)
Theorem success_messages_are_truthful w :
  (Output (Text msg_installed) ∈ events w ↔ install_exits_with w 0) ∧
  (Output (Text msg_built) ∈ events w ↔ build_exits_with w 0).
Proof.
  split; split.
  - run_cases w; intros H.
    all: try (repeat split; assumption).
    all: exfalso; elem_cases H; try discriminate H.
    all: injection H as H; vm_compute in H; discriminate H.
  - intros (Hnode & Hnpm & Hinstall). run_cases w; find_event.
  - run_cases w; intros H.
    all: try (repeat split; assumption).
    all: exfalso; elem_cases H; try discriminate H.
    all: injection H as H; vm_compute in H; discriminate H.
  - intros (Hnode & Hnpm & Hinstall & Hbuild). run_cases w; find_event.
Qed.

Lemma success_messages_are_truthful_witness :
  Output (Text msg_installed) ∈ events (world_failing npm_run_build) ∧
  ¬ build_exits_with (world_failing npm_install) 0.
Proof.
  split.
  - apply (success_messages_are_truthful (world_failing npm_run_build)).
    repeat split; reflexivity.
  - intros (_ & _ & H & _). vm_compute in H. discriminate H.
Defined.

(** ** X11 and X12: the text of a relayed line *)

Lemma lstrip_blank s : blank s = true → lstrip s = [].
Proof.
  induction s as [|c s IH]; [done|]. cbn.
  intros [Hc Hs]%andb_true_iff. rewrite Hc. by apply IH.
Qed.

Lemma rstrip_blank s : blank s = true → rstrip s = [].
Proof.
  induction s as [|c s IH]; [done|]. cbn.
  intros [Hc Hs]%andb_true_iff. by rewrite (IH Hs), Hc.
Qed.

Lemma lstrip_app_blank pre s : blank pre = true → lstrip (pre ++ s) = lstrip s.
Proof.
  induction pre as [|c pre IH]; [done|]. cbn.
  intros [Hc Hs]%andb_true_iff. rewrite Hc. by apply IH.
Qed.

Lemma rstrip_app_blank s post : blank post = true → rstrip (s ++ post) = rstrip s.
Proof.
  intros Hpost. induction s as [|c s IH]; cbn.
  - by apply rstrip_blank.
  - by rewrite IH.
Qed.

Lemma strip_app_blank s post : blank post = true → strip (s ++ post) = strip s.
Proof.
  intros Hpost. unfold strip. induction s as [|c s IH]; cbn.
  - by rewrite (lstrip_blank post).
  - destruct (isspace c); [exact IH|].
    by apply (rstrip_app_blank (c :: s)).
Qed.

Lemma lstrip_head s c : head (lstrip s) = Some c → isspace c = false.
Proof.
  induction s as [|c' s IH]; [done|]. cbn.
  destruct (isspace c') eqn:Hc'; [exact IH|].
  cbn. by intros [= <-].
Qed.

Lemma rstrip_head s c :
  head s = Some c → isspace c = false → head (rstrip s) = Some c.
Proof.
  destruct s as [|c' s]; [done|]. cbn. intros [= ->] Hc.
  destruct (rstrip s); [by rewrite Hc|done].
Qed.

Lemma rstrip_last s c : last (rstrip s) = Some c → isspace c = false.
Proof.
  induction s as [|c' s IH]; [done|]. cbn.
  destruct (rstrip s) as [|r0 r] eqn:Hr.
  - destruct (isspace c') eqn:Hc'; [done|]. cbn. by intros [= <-].
  - intros H. apply IH. exact H.
Qed.

Lemma lstrip_nil_blank s : lstrip s = [] → blank s = true.
Proof.
  induction s as [|c s IH]; [done|]. cbn.
  destruct (isspace c); [exact IH|done].
Qed.

Lemma strip_head s c : head (strip s) = Some c → isspace c = false.
Proof.
  unfold strip. destruct (lstrip s) as [|c0 l] eqn:Hl; [done|].
  assert (isspace c0 = false) as Hc0 by (apply (lstrip_head s); by rewrite Hl).
  rewrite (rstrip_head (c0 :: l) c0) by done. by intros [= <-].
Qed.

Lemma strip_nil_iff s : strip s = [] ↔ blank s = true.
Proof.
  unfold strip. split.
  - intros Hs. apply lstrip_nil_blank.
    destruct (lstrip s) as [|c0 l] eqn:Hl; [done|].
    assert (isspace c0 = false) as Hc0 by (apply (lstrip_head s); by rewrite Hl).
    pose proof (rstrip_head (c0 :: l) c0 eq_refl Hc0) as Hhead.
    by rewrite Hs in Hhead.
  - intros Hs. by rewrite (lstrip_blank s).
Qed.

(** X11. Whitespace around a line has no effect on what is relayed for it:
    two lines that differ only in leading and trailing whitespace
    (indentation, the newline, a carriage return) give the same output
    line. *)
Theorem relay_ignores_surrounding_whitespace pre s post :
  blank pre = true → blank post = true →
  log_line (pre ++ s ++ post) = log_line s.
Proof.
  intros Hpre Hpost. unfold log_line. f_equal.
  unfold strip. rewrite lstrip_app_blank by done.
  by apply strip_app_blank.
Qed.

Lemma relay_ignores_surrounding_whitespace_witness :
  log_line (lit "  " ++ lit "ready" ++ [13%N; 10%N]) = log_line (lit "ready").
Proof.
  apply (relay_ignores_surrounding_whitespace (lit "  ") (lit "ready") [13%N; 10%N]);
    reflexivity.
Defined.

(** X12. The line printed for a server line is the tag "[SERVER] " followed
    by a text that neither begins nor ends with whitespace; the text is
    empty, so that the bare tag is printed, exactly when the server line
    holds whitespace only. *)
Theorem relayed_text_is_trimmed s :
  ∃ body,
    log_line s = server_tag ++ body ∧
    (∀ c, head body = Some c → isspace c = false) ∧
    (∀ c, last body = Some c → isspace c = false) ∧
    (body = [] ↔ blank s = true).
Proof.
  exists (strip s). split; [reflexivity|]. split; [|split].
  - apply strip_head.
  - intros c. apply rstrip_last.
  - apply strip_nil_iff.
Qed.

(** ** X14: the dict objects of a run *)

(** X14. At the end of every run [os.environ] holds what it held at the
    start, and the only other dict the script has created, if any, is the
    environment of the server process. *)
Theorem run_creates_one_copy_at_most w :
  heap (run w).2 = [w_environ w] ∨
  heap (run w).2 = [w_environ w; server_env (w_environ w)].
Proof. run_cases w; (by left) || (by right). Qed.

(** ** X15: serving *)

(** X15. When the setup succeeds, the server keeps running and no Ctrl-C
    arrives, the script never exits: it has printed that the server is
    running, the server is its one child, started with the server
    environment and never terminated or reaped, and the script waits for
    it. *)
Theorem serves_until_interrupted w :
  launches w → w_sigint w = None → srv_own (w_server w) = None →
  exit_status w = Blocked ∧
  proc_events (events w)
  = setup_events ++ [Spawn server_process (Some (server_env (w_environ w)))] ∧
  Output (Text msg_running) ∈ events w.
Proof.
  intros [(Hnode & Hnpm & Hinstall & Hbuild) Hfound] Hsigint Hown.
  split; [|split]; run_cases w; [reflexivity|project; reflexivity|].
  do 16 apply list_elem_of_further.
  rewrite !elem_of_app, !elem_of_cons. auto 10.
Qed.

Lemma serves_until_interrupted_witness :
  exit_status world_serving = Blocked ∧
  proc_events (events world_serving)
  = setup_events ++ [Spawn server_process (Some (server_env ambient))] ∧
  Output (Text msg_running) ∈ events world_serving.
Proof.
  apply (serves_until_interrupted world_serving); [|reflexivity..].
  repeat split; reflexivity.
Defined.

(** ** X16: Ctrl-C inside [Popen] *)

(** X16. When Ctrl-C arrives inside [Popen], once the server exists and
    before the call has returned its handle, the handler finds the
    variable [process] unbound: the shutdown message is the last thing
    printed, no termination request is sent, the server is neither waited
    for nor reaped and stays behind, nothing of its output is relayed, and
    the script exits with code 1 through the uncaught exception. *)
Theorem interrupt_inside_popen_orphans_the_server w :
  launches w → w_sigint w = Some 0%nat →
  proc_events (events w)
  = setup_events ++ [Spawn server_process (Some (server_env (w_environ w)))] ∧
  last (events w) = Some (Output (Text msg_shutting_down)) ∧
  active (events w) = [pid server_process] ∧
  relayed (events w) = [] ∧
  exit_status w = Exited 1.
Proof.
  intros [(Hnode & Hnpm & Hinstall & Hbuild) Hfound] Hsigint.
  repeat split; run_cases w; reflexivity.
Qed.

Lemma interrupt_inside_popen_orphans_the_server_witness :
  proc_events (events world_interrupted_in_popen)
  = setup_events ++ [Spawn server_process (Some (server_env ambient))] ∧
  last (events world_interrupted_in_popen)
  = Some (Output (Text msg_shutting_down)) ∧
  active (events world_interrupted_in_popen) = [pid server_process] ∧
  relayed (events world_interrupted_in_popen) = [] ∧
  exit_status world_interrupted_in_popen = Exited 1.
Proof.
  apply (interrupt_inside_popen_orphans_the_server world_interrupted_in_popen).
  - repeat split; reflexivity.
  - reflexivity.
Defined.

(** ** X17: Ctrl-C during a setup step *)

(** X17. When the toolchain check passes and Ctrl-C arrives while the
    command of a setup step runs, [KeyboardInterrupt] is caught nowhere:
    neither the failure nor the success message of the step is printed
    (its announcement is the last line of output), nothing more is started,
    and the script is killed by SIGINT. *)
Theorem interrupt_during_setup w o :
  w_run w node_version = Exits 0 → w_run w npm_version = Exits 0 →
  (w_run w npm_install = Interrupted o →
   last (stdout (events w)) = Some (Text msg_installing) ∧
   spawned (events w) = [node_version; npm_version; npm_install] ∧
   exit_status w = Killed SIGINT) ∧
  (w_run w npm_install = Exits 0 → w_run w npm_run_build = Interrupted o →
   last (stdout (events w)) = Some (Text msg_building) ∧
   spawned (events w)
   = [node_version; npm_version; npm_install; npm_run_build] ∧
   exit_status w = Killed SIGINT).
Proof.
  intros Hnode Hnpm. split.
  - intros Hinstall. destruct o; repeat split; run_cases w; reflexivity.
  - intros Hinstall Hbuild. destruct o; repeat split; run_cases w; reflexivity.
Qed.

Lemma interrupt_during_setup_witness :
  exit_status (world_interrupted_during npm_install) = Killed SIGINT ∧
  exit_status (world_interrupted_during npm_run_build) = Killed SIGINT.
Proof.
  split.
  - destruct (interrupt_during_setup (world_interrupted_during npm_install) None)
      as [Hinstall _]; [reflexivity..|].
    apply Hinstall. reflexivity.
  - destruct (interrupt_during_setup (world_interrupted_during npm_run_build) None)
      as [_ Hbuild]; [reflexivity..|].
    apply Hbuild; reflexivity.
Defined.
